(** * check_afinfo: function pointers of the network protocol tables

    A shallow embedding of [volatility/plugins/linux/check_afinfo.py]
    (class [CheckAFInfo]): [CreateChecks], [check_members] and
    [check_functions], with the properties of the scan proved over it.

    Python generators are embedded as the finite list of their loop
    iterations; a generator that is iterated by a loop whose body raises is
    consumed up to the raising iteration only.  Exceptions are explicit.

    The object framework is not part of the plugin's file.  [CheckAFInfo]
    embeds the plugin over a framework that answers what is missing with
    its none object; [Raising] embeds it over a framework whose calls fail
    as their interface states; [Store] embeds [CreateChecks] over a heap,
    with the list it mutates as an object. *)

From Stdlib Require Import String List ZArith Bool Lia.
Import ListNotations.
Local Open Scope string_scope.
Local Open Scope list_scope.

(** ** The object framework, as far as the plugin uses it *)
Module Obj.

(** Lookup in an association list, first binding wins. *)
Fixpoint assoc {A : Type} (k : string) (l : list (string * A)) : option A :=
  match l with
  | [] => None
  | (k', v) :: rest => if String.eqb k k' then Some v else assoc k rest
  end.

(** Modelled from the spec: the profile (the struct-layout database of the
    object framework) is not part of the plugin's file.  A layout maps the
    name of a record type to its members, listed in the order in which the
    [members] mapping enumerates them. *)
Definition layout := list (string * list string).

(** Modelled from the spec: [profile.has_type(name)], true exactly for the
    record types the layout describes. *)
Definition has_type (p : layout) (n : string) : bool :=
  match assoc n p with
  | Some _ => true
  | None => false
  end.

(** Modelled from the spec: what [profile.<name>().members] evaluates to.
    Instantiating a record type that the layout lacks gives the framework's
    none object, which swallows attribute access, calls and iteration: it
    contributes zero fields and never raises. *)
Inductive seq : Type :=
| NoneSeq
| ListOf (l : list string).

Definition type_members (p : layout) (n : string) : seq :=
  match assoc n p with
  | Some ms => ListOf ms
  | None => NoneSeq
  end.

(** [.keys()]: a fresh list of the member names (the none object answers
    itself). *)
Definition keys (s : seq) : seq := s.

(** [for x in s]. *)
Definition iterate (s : seq) : list string :=
  match s with
  | NoneSeq => []
  | ListOf l => l
  end.

(** [s.extend(more)]; a call on the none object is swallowed. *)
Definition extend (s : seq) (more : list string) : seq :=
  match s with
  | NoneSeq => NoneSeq
  | ListOf l => ListOf (l ++ more)
  end.

(** Modelled from the spec: the outcome of reading the bytes of a pointer
    field through the address space ([AddressSpace.read]): a failed read, or
    the pointer value. *)
Inductive read : Type :=
| Fault
| Word (v : Z).

(** Objects the plugin handles: the none object, a struct instance with the
    field paths its layout defines, and a pointer field. *)
Inductive object : Type :=
| NoneObject
| Struct (type_name : string) (fields : list (string * read))
| Pointer (target : read).

(** Modelled from the spec: [struct.m(member)].  A field path that the
    struct does not define gives the none object; so does any member of the
    none object. *)
Definition m (o : object) (member : string) : object :=
  match o with
  | Struct _ fields =>
      match assoc member fields with
      | Some r => Pointer r
      | None => NoneObject
      end
  | _ => NoneObject
  end.

(** Modelled from the spec: the truth value of an object ([if not ptr]).
    The none object is false; a pointer is true when its value was read and
    is not null (a failed read counts as no pointer). *)
Definition truth (o : object) : bool :=
  match o with
  | NoneObject => false
  | Struct _ _ => true
  | Pointer Fault => false
  | Pointer (Word v) => negb (v =? 0)%Z
  end.

(** The [Function] object a pointer is dereferenced as; [check_members]
    reads its [obj_offset]. *)
Record function : Type := { func_name : string; obj_offset : Z }.

(** Modelled from the spec:
    [ptr.dereference_as(target="Function", target_args=dict(name=member))];
    the function sits at the address the pointer holds. *)
Definition dereference_as (ptr : object) (member : string) : function :=
  match ptr with
  | Pointer (Word v) => {| func_name := member; obj_offset := v |}
  | _ => {| func_name := member; obj_offset := 0 |}
  end.

(** Modelled from the spec: the kernel address space together with the
    symbol table, as the global tables it holds: for each kernel global
    that exists in this build, the field paths of its struct instance and
    what reading each gives. *)
Definition address_space := list (string * list (string * read)).

(** Modelled from the spec:
    [profile.get_constant_object(variable, target=..., vm=...)], the global
    as an instance of the target type.  A global that this kernel build
    lacks gives the none object, whose members are absent in turn. *)
Definition get_constant_object
    (vm : address_space) (variable target : string) : object :=
  match assoc variable vm with
  | Some fields => Struct target fields
  | None => NoneObject
  end.

(** The same fields with a null pointer wherever the read failed. *)
Definition null_on_fault (fields : list (string * read))
    : list (string * read) :=
  map (fun f => (fst f, match snd f with Fault => Word 0 | Word v => Word v end))
      fields.

(** Modelled from the spec: a loaded module and its address range
    [[mod_start, mod_end)]. *)
Record module : Type :=
  { mod_name : string; mod_start : Z; mod_end : Z }.

Definition contains (md : module) (addr : Z) : bool :=
  ((mod_start md <=? addr) && (addr <? mod_end md))%Z.

(** Modelled from the spec: [module_plugin.find_module(addr)] of the lsmod
    plugin: the module whose range contains the address, or none. *)
Definition find_module (mods : list module) (addr : Z) : option module :=
  find (fun md => contains md addr) mods.

End Obj.

(** ** The plugin *)
Module CheckAFInfo.
Import Obj.

(** One entry of the list [CreateChecks] returns (a [dict]). *)
Record check : Type :=
  { name : string;
    constant_type : string;
    global_vars : list string;
    members : seq }.

(** [CreateChecks]. *)
Definition CreateChecks (profile : layout) : list check :=
  let members := keys (type_members profile "file_operations") in
  let members :=
    if has_type profile "seq_operations"
    then extend members
           (map (fun x => String.append "seq_ops." x)
                (iterate (type_members profile "seq_operations")))
    else members in
  let members :=
    if has_type profile "file_operations"
    then extend members
           (map (fun x => String.append "seq_fops." x)
                (iterate (type_members profile "file_operations")))
    else members in
  [ {| name := "tcp";
       constant_type := "tcp_seq_afinfo";
       global_vars := ["tcp6_seq_afinfo"; "tcp4_seq_afinfo"];
       members := members |};
    {| name := "udp";
       constant_type := "udp_seq_afinfo";
       global_vars := ["udplite6_seq_afinfo"; "udp6_seq_afinfo";
                       "udplite4_seq_afinfo"; "udp4_seq_afinfo"];
       members := members |} ].

(** What [check_members] yields: [(member, func, module name)]. *)
Definition item : Type := (string * function * string)%type.

(** The body of the loop of [check_members] for one member: [None] when the
    iteration ends in [continue] without a yield. *)
Definition check_member
    (mods : list module) (struct : object) (member : string) : option item :=
  let ptr := m struct member in
  if negb (truth ptr) then None
  else
    let func := dereference_as ptr member in
    match find_module mods (obj_offset func) with
    | Some module => Some (member, func, mod_name module)
    | None => Some (member, func, "Unknown")
    end.

(** [check_members], as the list of its loop iterations in order: the member
    visited and what the iteration yields, if anything. *)
Definition check_members
    (mods : list module) (struct : object) (members : seq)
    : list (string * option item) :=
  map (fun member => (member, check_member mods struct member))
      (iterate members).

(** The items a generator yields when it is run to its end. *)
Definition yields (g : list (string * option item)) : list item :=
  flat_map (fun it => match snd it with Some x => [x] | None => [] end) g.

(** Values a name of [check_functions] can be bound to. *)
Inductive value : Type :=
| VStr (s : string)
| VFunc (f : function)
| VObject (o : object)
| VCheck (c : check)
| VChecks (cs : list check)
| VSelf
| VGlobal (n : string).

(** Exceptions: the [NameError] of the interpreter, and the failures the
    framework's calls can end in. *)
Inductive exn : Type :=
| NameError (n : string)
| SymbolNotFound (symbol : string)
| ReadError (member : string)
| MissingType (n : string).

Inductive result (A : Type) : Type :=
| Ok (a : A)
| Raise (e : exn).
Arguments Ok {A} a.
Arguments Raise {A} e.

Definition bind {A B : Type} (r : result A) (k : A -> result B) : result B :=
  match r with
  | Ok a => k a
  | Raise e => Raise e
  end.

Notation "x <- r ;; k" := (bind r (fun x => k))
  (at level 61, r at next level, right associativity).

(** The names the module itself binds: the two imports and the class.
    Neither the module nor the builtins bind a name [location]. *)
Definition module_globals : list (string * value) :=
  [ ("logging", VGlobal "logging");
    ("common", VGlobal "common");
    ("CheckAFInfo", VGlobal "CheckAFInfo") ].

(** Reading a name inside a function: its local variables, then the
    module's globals; a name bound in neither raises [NameError]. *)
Definition load (locals : list (string * value)) (n : string) : result value :=
  match assoc n locals with
  | Some v => Ok v
  | None =>
      match assoc n module_globals with
      | Some v => Ok v
      | None => Raise (NameError n)
      end
  end.

(** What [check_functions] yields: [(variable, member, func, location)]. *)
Definition finding : Type := (value * value * value * value)%type.

(** The run of a generator that is consumed in full: the (check, global,
    member) combinations whose field was looked at, the findings yielded,
    and the exception that ended the run, if one did. *)
Record trace : Type :=
  { visited : list (string * string * string);
    yielded : list finding;
    raised : option exn }.

Definition done : trace :=
  {| visited := []; yielded := []; raised := None |}.

(** Sequencing: what follows runs only if what came before did not raise. *)
Definition andthen (t k : trace) : trace :=
  match raised t with
  | Some _ => t
  | None =>
      {| visited := visited t ++ visited k;
         yielded := yielded t ++ yielded k;
         raised := raised k |}
  end.

(** A [for] loop whose body may yield and may raise. *)
Fixpoint for_each {A : Type} (body : A -> trace) (l : list A) : trace :=
  match l with
  | [] => done
  | x :: rest => andthen (body x) (for_each body rest)
  end.

(** The expression of the [yield] statement of [check_functions]. *)
Definition yield_expr (locals : list (string * value)) : result finding :=
  a <- load locals "variable" ;;
  b <- load locals "member" ;;
  c <- load locals "func" ;;
  d <- load locals "location" ;;
  Ok (a, b, c, d).

(** One step of the innermost loop of [check_functions]: the generator
    [check_members] advances by one iteration; if that iteration yields, the
    tuple is unpacked into [member, func, location1] and the body runs. *)
Definition inner_step
    (checks : list check) (c : check) (variable : string) (var_ptr : object)
    (it : string * option item) : trace :=
  let here := [(name c, variable, fst it)] in
  match snd it with
  | None => {| visited := here; yielded := []; raised := None |}
  | Some (member, func, location1) =>
      let locals :=
        [ ("self", VSelf); ("checks", VChecks checks); ("check", VCheck c);
          ("variable", VStr variable); ("var_ptr", VObject var_ptr);
          ("member", VStr member); ("func", VFunc func);
          ("location1", VStr location1) ] in
      match yield_expr locals with
      | Ok f => {| visited := here; yielded := [f]; raised := None |}
      | Raise e => {| visited := here; yielded := []; raised := Some e |}
      end
  end.

(** The loop over [check["global_vars"]] for one check. *)
Definition for_variable
    (profile_vm : address_space) (mods : list module)
    (checks : list check) (c : check) (variable : string) : trace :=
  let var_ptr :=
    get_constant_object profile_vm variable (constant_type c) in
  for_each (inner_step checks c variable var_ptr)
           (check_members mods var_ptr (members c)).

Definition for_check
    (profile_vm : address_space) (mods : list module)
    (checks : list check) (c : check) : trace :=
  for_each (for_variable profile_vm mods checks c) (global_vars c).

(** [check_functions]. *)
Definition check_functions
    (profile_vm : address_space) (mods : list module)
    (checks : list check) : trace :=
  for_each (for_check profile_vm mods checks) checks.

(** The scan as [render] drives it: [CreateChecks], then [check_functions]
    consumed in full. *)
Definition scan
    (profile : layout) (profile_vm : address_space) (mods : list module)
    : trace :=
  check_functions profile_vm mods (CreateChecks profile).

(** What the renderer receives. *)
Inductive row : Type :=
| table_header (columns : list (string * string * string))
| table_row (variable member func location : value)
            (highlight : option string).

(** [render], as a step on the rows the renderer holds: the header, then a
    row for each finding [check_functions] yields, highlighted when the
    location is ["Unknown"]; an exception of the generator leaves through
    [render]. *)
Definition render
    (profile : layout) (profile_vm : address_space) (mods : list module)
    (out : list row) : list row * option exn :=
  let out :=
    out ++ [ table_header [ ("Constant Name", "symbol", "30");
                            ("Member", "member", "30");
                            ("Address", "address", "[addrpad]");
                            ("Module", "module", "<20") ] ] in
  let checks := CreateChecks profile in
  let run := check_functions profile_vm mods checks in
  (out ++
     map (fun f : finding =>
            match f with
            | (variable, member, func, location) =>
                let highlight :=
                  match location with
                  | VStr "Unknown" => Some "important"
                  | _ => None
                  end in
                table_row variable member func location highlight
            end)
         (yielded run),
   raised run).

(** The (check, global, member) combinations in the order the three nested
    loops reach them when nothing interrupts the scan: check order, then
    the order of the globals of the check, then member order. *)
Definition combinations (checks : list check)
    : list (string * string * string) :=
  flat_map
    (fun c =>
       flat_map
         (fun variable =>
            map (fun member => (name c, variable, member))
                (iterate (members c)))
         (global_vars c))
    checks.


(** The header row [render] writes. *)
Definition afinfo_header : row :=
  table_header [ ("Constant Name", "symbol", "30");
                 ("Member", "member", "30");
                 ("Address", "address", "[addrpad]");
                 ("Module", "module", "<20") ].

End CheckAFInfo.

(** ** The plugin over a framework whose calls fail

    The same functions of the plugin, embedded over the framework as its
    interface is stated: resolving a global that the build lacks fails with
    [SymbolNotFound], reading a pointer through the address space can fail
    with [ReadError], and a layout without the record type line 47
    instantiates is a fatal configuration error.  The plugin has no [try]:
    whatever a call raises leaves through the generator. *)
Module Raising.
Import Obj CheckAFInfo.

(** Modelled from the spec: [profile.<name>().members], with the missing
    record type as the fatal error the spec makes of a layout that lacks
    the baseline type. *)
Definition type_members (p : layout) (n : string) : result (list string) :=
  match assoc n p with
  | Some ms => Ok ms
  | None => Raise (MissingType n)
  end.

(** [CreateChecks]. *)
Definition CreateChecks (profile : layout) : result (list check) :=
  members <- type_members profile "file_operations" ;;
  members <-
    (if has_type profile "seq_operations"
     then ops <- type_members profile "seq_operations" ;;
          Ok (members ++ map (fun x => String.append "seq_ops." x) ops)
     else Ok members) ;;
  members <-
    (if has_type profile "file_operations"
     then fops <- type_members profile "file_operations" ;;
          Ok (members ++ map (fun x => String.append "seq_fops." x) fops)
     else Ok members) ;;
  Ok [ {| name := "tcp";
          constant_type := "tcp_seq_afinfo";
          global_vars := ["tcp6_seq_afinfo"; "tcp4_seq_afinfo"];
          members := ListOf members |};
       {| name := "udp";
          constant_type := "udp_seq_afinfo";
          global_vars := ["udplite6_seq_afinfo"; "udp6_seq_afinfo";
                          "udplite4_seq_afinfo"; "udp4_seq_afinfo"];
          members := ListOf members |} ].

(** Modelled from the spec: [profile.get_constant_object]: the struct
    instance, or the failure [SymbolNotFound]. *)
Definition get_constant_object
    (vm : address_space) (variable target : string) : result object :=
  match assoc variable vm with
  | Some fields => Ok (Struct target fields)
  | None => Raise (SymbolNotFound variable)
  end.

(** Modelled from the spec: the truth value of [ptr] in [if not ptr].
    Testing a pointer reads its value through the address space
    ([AddressSpace.read]), which fails with [ReadError]; an absent member
    is the none object and false. *)
Definition truth (ptr : object) (member : string) : result bool :=
  match ptr with
  | Pointer Fault => Raise (ReadError member)
  | _ => Ok (Obj.truth ptr)
  end.

(** The body of the loop of [check_members] for one member. *)
Definition check_member
    (mods : list module) (struct : object) (member : string)
    : result (option item) :=
  let ptr := m struct member in
  t <- truth ptr member ;;
  if negb t then Ok None
  else
    let func := dereference_as ptr member in
    match find_module mods (obj_offset func) with
    | Some module => Ok (Some (member, func, mod_name module))
    | None => Ok (Some (member, func, "Unknown"))
    end.

(** [check_members], as the list of its loop iterations: an iteration
    ends in [continue], yields, or raises; what follows a raising
    iteration is never run by the loop that consumes the generator. *)
Definition check_members
    (mods : list module) (struct : object) (members : seq)
    : list (string * result (option item)) :=
  map (fun member => (member, check_member mods struct member))
      (iterate members).

(** One step of the innermost loop of [check_functions]. *)
Definition inner_step
    (checks : list check) (c : check) (variable : string) (var_ptr : object)
    (it : string * result (option item)) : trace :=
  match snd it with
  | Raise e =>
      {| visited := [(name c, variable, fst it)];
         yielded := [];
         raised := Some e |}
  | Ok o => CheckAFInfo.inner_step checks c variable var_ptr (fst it, o)
  end.

Definition for_variable
    (profile_vm : address_space) (mods : list module)
    (checks : list check) (c : check) (variable : string) : trace :=
  match get_constant_object profile_vm variable (constant_type c) with
  | Raise e => {| visited := []; yielded := []; raised := Some e |}
  | Ok var_ptr =>
      for_each (inner_step checks c variable var_ptr)
               (check_members mods var_ptr (members c))
  end.

Definition for_check
    (profile_vm : address_space) (mods : list module)
    (checks : list check) (c : check) : trace :=
  for_each (for_variable profile_vm mods checks c) (global_vars c).

(** [check_functions]. *)
Definition check_functions
    (profile_vm : address_space) (mods : list module)
    (checks : list check) : trace :=
  for_each (for_check profile_vm mods checks) checks.

(** [CreateChecks], then [check_functions] consumed in full. *)
Definition scan
    (profile : layout) (profile_vm : address_space) (mods : list module)
    : trace :=
  match CreateChecks profile with
  | Raise e => {| visited := []; yielded := []; raised := Some e |}
  | Ok checks => check_functions profile_vm mods checks
  end.

End Raising.

(** ** The plugin over a store of objects

    [CreateChecks] builds its member list by mutation: [keys()] makes a new
    list object out of the [members] mapping of a record type, [extend]
    changes that object in place, and both checks hold the one object.
    Here the lists are objects of a heap that outlives the call, so that
    what a run leaves behind is there for the next one to meet. *)
Module Store.
Import Obj CheckAFInfo.

(** List objects; a reference is a position in the heap. *)
Definition heap := list (list string).
Definition ref := nat.

Definition deref (h : heap) (r : ref) : list string := nth r h [].

(** A new object, at the end of the heap. *)
Definition alloc (h : heap) (l : list string) : ref * heap :=
  (length h, h ++ [l]).

(** The object at [r] replaced. *)
Fixpoint update (h : heap) (r : ref) (l : list string) : heap :=
  match h, r with
  | [], _ => []
  | _ :: rest, O => l :: rest
  | x :: rest, S r' => x :: update rest r' l
  end.

(** The profile: for each record type it has, the object that holds the
    names of its [members] mapping, in order. *)
Definition profile_objects := list (string * ref).

(** The layout a profile stands for in a heap. *)
Definition layout_of (p : profile_objects) (h : heap) : layout :=
  map (fun t => (fst t, deref h (snd t))) p.

(** [profile.<name>().members.keys()]: a new list with the names of the
    mapping; the none object answers itself. *)
Definition keys (p : profile_objects) (n : string) (h : heap)
    : option ref * heap :=
  match assoc n p with
  | Some r => let (r', h') := alloc h (deref h r) in (Some r', h')
  | None => (None, h)
  end.

(** [for x in profile.<name>().members]. *)
Definition iterate (p : profile_objects) (n : string) (h : heap)
    : list string :=
  match assoc n p with
  | Some r => deref h r
  | None => []
  end.

(** [members.extend(more)], in place. *)
Definition extend (h : heap) (members : option ref) (more : list string)
    : heap :=
  match members with
  | Some r => update h r (deref h r ++ more)
  | None => h
  end.

Definition has_type (p : profile_objects) (n : string) : bool :=
  match assoc n p with
  | Some _ => true
  | None => false
  end.

(** A check whose [members] entry is a reference. *)
Record check_object : Type :=
  { o_name : string;
    o_constant_type : string;
    o_global_vars : list string;
    o_members : option ref }.

(** [CreateChecks]: the checks, and the heap it leaves. *)
Definition CreateChecks (p : profile_objects) (h : heap)
    : list check_object * heap :=
  let (members, h) := keys p "file_operations" h in
  let h :=
    if has_type p "seq_operations"
    then extend h members
           (map (fun x => String.append "seq_ops." x)
                (iterate p "seq_operations" h))
    else h in
  let h :=
    if has_type p "file_operations"
    then extend h members
           (map (fun x => String.append "seq_fops." x)
                (iterate p "file_operations" h))
    else h in
  ([ {| o_name := "tcp";
        o_constant_type := "tcp_seq_afinfo";
        o_global_vars := ["tcp6_seq_afinfo"; "tcp4_seq_afinfo"];
        o_members := members |};
     {| o_name := "udp";
        o_constant_type := "udp_seq_afinfo";
        o_global_vars := ["udplite6_seq_afinfo"; "udp6_seq_afinfo";
                          "udplite4_seq_afinfo"; "udp4_seq_afinfo"];
        o_members := members |} ],
   h).

(** A check as [check_functions] reads it: the member list is what the
    heap holds at the reference when the loops run. *)
Definition read_check (h : heap) (c : check_object) : check :=
  {| name := o_name c;
     constant_type := o_constant_type c;
     global_vars := o_global_vars c;
     members := match o_members c with
                | Some r => ListOf (deref h r)
                | None => NoneSeq
                end |}.

(** One scan, as [render] drives it: the run of the generator, and the
    heap left behind. *)
Definition scan
    (p : profile_objects) (profile_vm : address_space) (mods : list module)
    (h : heap) : trace * heap :=
  let (checks, h') := CreateChecks p h in
  (check_functions profile_vm mods (map (read_check h') checks), h').

(** Every object the profile refers to is in the heap. *)
Definition well_formed (p : profile_objects) (h : heap) : Prop :=
  forall n r, In (n, r) p -> r < length h.

End Store.

(** ** A small kernel used in the examples *)
Module Scenario.
Import Obj CheckAFInfo.

Definition profile : layout :=
  [ ("file_operations", ["open"; "llseek"]);
    ("seq_operations", ["show"]) ].

(** The only table of this build is [tcp4_seq_afinfo]; its [seq_ops.show]
    points into [tcp_mod], its [seq_fops.llseek] into no module, and its
    [seq_fops.open] is null. *)
Definition vm : address_space :=
  [ ("tcp4_seq_afinfo",
     [ ("seq_ops.show", Word 5376);
       ("seq_fops.open", Word 0);
       ("seq_fops.llseek", Word 36864) ]) ].

Definition tcp_mod : module :=
  {| mod_name := "tcp_mod"; mod_start := 4096; mod_end := 8192 |}.

Definition mods : list module := [tcp_mod].

Definition tcp4 : object :=
  get_constant_object vm "tcp4_seq_afinfo" "tcp_seq_afinfo".

(** The member list [CreateChecks] builds for [profile], and its checks. *)
Definition fields : seq :=
  ListOf ["open"; "llseek"; "seq_ops.show"; "seq_fops.open";
          "seq_fops.llseek"].

Definition tcp_check : check :=
  {| name := "tcp";
     constant_type := "tcp_seq_afinfo";
     global_vars := ["tcp6_seq_afinfo"; "tcp4_seq_afinfo"];
     members := fields |}.

Definition udp_check : check :=
  {| name := "udp";
     constant_type := "udp_seq_afinfo";
     global_vars := ["udplite6_seq_afinfo"; "udp6_seq_afinfo";
                     "udplite4_seq_afinfo"; "udp4_seq_afinfo"];
     members := fields |}.

(** A build whose [tcp6_seq_afinfo] cannot be read at [seq_ops.show]. *)
Definition faulty_vm : address_space :=
  [ ("tcp6_seq_afinfo",
     [ ("seq_ops.show", Fault); ("seq_fops.open", Word 0) ]) ].

(** A layout of a kernel that has neither [seq_operations] nor
    [file_operations]. *)
Definition bare_profile : layout :=
  [ ("tcp_seq_afinfo", ["name"; "family"]) ].

(** A build in which every table but [udp6_seq_afinfo] exists, each with
    a null [seq_fops.open]. *)
Definition null_table : list (string * read) := [ ("seq_fops.open", Word 0) ].

Definition vm_without_udp6 : address_space :=
  [ ("tcp6_seq_afinfo", null_table);
    ("tcp4_seq_afinfo", null_table);
    ("udplite6_seq_afinfo", null_table);
    ("udplite4_seq_afinfo", null_table);
    ("udp4_seq_afinfo", null_table) ].

(** A layout with [file_operations] and no [seq_operations]. *)
Definition old_profile : layout :=
  [ ("file_operations", ["open"; "llseek"]) ].

(** The profile of the example as objects of a heap, and a heap in which a
    list left by an earlier call sits between them. *)
Definition profile_objects : Store.profile_objects :=
  [ ("file_operations", 0); ("seq_operations", 2) ].

Definition heap : Store.heap :=
  [ ["open"; "llseek"]; ["stale"]; ["show"] ].

(** The example build with a further table that no check names. *)
Definition wider_vm : address_space :=
  vm ++ [ ("raw_seq_afinfo", [ ("seq_ops.show", Word 36864) ]) ].

Definition show_func : function :=
  {| func_name := "seq_ops.show"; obj_offset := 5376 |}.

Definition llseek_func : function :=
  {| func_name := "seq_fops.llseek"; obj_offset := 36864 |}.

End Scenario.

(** ** Properties *)
Import Obj CheckAFInfo.

(** *** Sequencing and loops *)

Lemma andthen_yielded_nil (t k : trace) :
  yielded t = [] -> yielded k = [] -> yielded (andthen t k) = [].
Proof.
  intros Ht Hk. unfold andthen.
  destruct (raised t); simpl; [assumption|].
  now rewrite Ht, Hk.
Qed.

Lemma for_each_yielded_nil {A : Type} (body : A -> trace) (l : list A) :
  (forall x, In x l -> yielded (body x) = []) ->
  yielded (for_each body l) = [].
Proof.
  induction l as [|x rest IH]; intros H; simpl; [reflexivity|].
  apply andthen_yielded_nil.
  - apply H. now left.
  - apply IH. intros y Hy. apply H. now right.
Qed.

Lemma for_each_quiet {A : Type} (body : A -> trace) (l : list A) :
  (forall x, In x l -> raised (body x) = None) ->
  raised (for_each body l) = None.
Proof.
  induction l as [|x rest IH]; intros H; simpl; [reflexivity|].
  unfold andthen. rewrite (H x (or_introl eq_refl)). simpl.
  apply IH. intros y Hy. apply H. now right.
Qed.

Lemma for_each_ext {A : Type} (f g : A -> trace) (l : list A) :
  (forall x, In x l -> f x = g x) -> for_each f l = for_each g l.
Proof.
  induction l as [|x rest IH]; intros H; simpl; [reflexivity|].
  rewrite (H x (or_introl eq_refl)), IH; [reflexivity|].
  intros y Hy. apply H. now right.
Qed.

Lemma andthen_assoc (a b c : trace) :
  andthen (andthen a b) c = andthen a (andthen b c).
Proof.
  unfold andthen.
  destruct (raised a) eqn:Ea; simpl.
  - now rewrite Ea.
  - destruct (raised b) eqn:Eb; simpl; rewrite ?Ea; simpl.
    + now rewrite Eb.
    + now rewrite !app_assoc.
Qed.

Lemma andthen_done_l (t : trace) : andthen done t = t.
Proof. now destruct t. Qed.

Lemma for_each_app {A : Type} (body : A -> trace) (l1 l2 : list A) :
  for_each body (l1 ++ l2) = andthen (for_each body l1) (for_each body l2).
Proof.
  induction l1 as [|x rest IH]; simpl.
  - now rewrite andthen_done_l.
  - now rewrite IH, andthen_assoc.
Qed.

(** *** The innermost step *)

(** The name [location] is bound neither in the function nor in the module,
    so the [yield] expression raises whatever the iteration produced. *)
Lemma yield_expr_raises checks c variable var_ptr member func location1 :
  yield_expr
    [ ("self", VSelf); ("checks", VChecks checks); ("check", VCheck c);
      ("variable", VStr variable); ("var_ptr", VObject var_ptr);
      ("member", VStr member); ("func", VFunc func);
      ("location1", VStr location1) ]
  = Raise (NameError "location").
Proof. reflexivity. Qed.

Lemma inner_step_eq checks c variable var_ptr it :
  inner_step checks c variable var_ptr it =
  {| visited := [(name c, variable, fst it)];
     yielded := [];
     raised := match snd it with
               | Some _ => Some (NameError "location")
               | None => None
               end |}.
Proof.
  unfold inner_step. destruct (snd it) as [[[member func] location1]|].
  - now rewrite yield_expr_raises.
  - reflexivity.
Qed.

Lemma inner_step_checks_irrelevant cs cs' c variable var_ptr it :
  inner_step cs c variable var_ptr it = inner_step cs' c variable var_ptr it.
Proof. now rewrite !inner_step_eq. Qed.

(** No run of [check_functions] ever yields a finding. *)
Lemma check_functions_yields_nothing vm mods checks :
  yielded (check_functions vm mods checks) = [].
Proof.
  unfold check_functions, for_check, for_variable.
  apply for_each_yielded_nil; intros c _.
  apply for_each_yielded_nil; intros variable _.
  apply for_each_yielded_nil; intros it _.
  now rewrite inner_step_eq.
Qed.

(** *** The checks *)

Lemma has_type_members (p : layout) (n : string) :
  has_type p n = false -> type_members p n = NoneSeq.
Proof.
  unfold has_type, type_members. now destruct (assoc n p).
Qed.

Lemma members_of_checks (p : layout) (c : check) :
  In c (CreateChecks p) ->
  members c =
    (let base := keys (type_members p "file_operations") in
     let with_ops :=
       if has_type p "seq_operations"
       then extend base
              (map (String.append "seq_ops.")
                   (iterate (type_members p "seq_operations")))
       else base in
     if has_type p "file_operations"
     then extend with_ops
            (map (String.append "seq_fops.")
                 (iterate (type_members p "file_operations")))
     else with_ops).
Proof.
  unfold CreateChecks. simpl.
  intros [<-|[<-|[]]]; reflexivity.
Qed.


(** C10: when the layout defines [file_operations] with members [ms], the
    member list of every check starts with [ms] and ends with the same
    members prefixed with [seq_fops.]; so each member of [file_operations]
    occurs in it bare and prefixed. *)
Theorem file_operations_members_twice
    (p : layout) (ms : list string) (c : check) :
  assoc "file_operations" p = Some ms ->
  In c (CreateChecks p) ->
  (exists mid : list string,
     members c = ListOf (ms ++ mid ++ map (String.append "seq_fops.") ms)) /\
  (forall x, In x ms ->
     In x (iterate (members c)) /\
     In (String.append "seq_fops." x) (iterate (members c))).
Proof.
  intros Hms Hc.
  assert (Hdec : exists mid : list string,
             members c =
               ListOf (ms ++ mid ++ map (String.append "seq_fops.") ms)).
  { rewrite (members_of_checks p c Hc).
    unfold has_type, type_members, keys. rewrite Hms. simpl.
    destruct (assoc "seq_operations" p) as [ops|]; simpl.
    - exists (map (String.append "seq_ops.") ops). now rewrite <- app_assoc.
    - now exists []. }
  split; [exact Hdec|].
  destruct Hdec as [mid ->]. cbn [iterate]. intros x Hx. split.
  - apply in_or_app. now left.
  - apply in_or_app. right. apply in_or_app. right.
    exact (in_map (String.append "seq_fops.") ms x Hx).
Qed.

Lemma file_operations_members_twice_witness :
  assoc "file_operations" Scenario.profile = Some ["open"; "llseek"] /\
  In Scenario.tcp_check (CreateChecks Scenario.profile) /\
  (exists mid : list string,
     members Scenario.tcp_check =
       ListOf (["open"; "llseek"] ++ mid ++
               map (String.append "seq_fops.") ["open"; "llseek"])) /\
  (forall x, In x ["open"; "llseek"] ->
     In x (iterate (members Scenario.tcp_check)) /\
     In (String.append "seq_fops." x) (iterate (members Scenario.tcp_check))).
Proof.
  assert (H1 : assoc "file_operations" Scenario.profile
               = Some ["open"; "llseek"]) by reflexivity.
  assert (H2 : In Scenario.tcp_check (CreateChecks Scenario.profile))
    by (left; reflexivity).
  split; [exact H1|]. split; [exact H2|].
  exact (file_operations_members_twice
           Scenario.profile ["open"; "llseek"] Scenario.tcp_check H1 H2).
Defined.

(** *** The module index *)

Lemma contains_range (md : module) (addr : Z) :
  contains md addr = true <-> (mod_start md <= addr < mod_end md)%Z.
Proof.
  unfold contains. rewrite andb_true_iff, Z.leb_le, Z.ltb_lt. tauto.
Qed.

Lemma contains_not_range (md : module) (addr : Z) :
  contains md addr = false <-> ~ (mod_start md <= addr < mod_end md)%Z.
Proof.
  rewrite <- contains_range. destruct (contains md addr); split; congruence.
Qed.

(** A hit of [find_module] is the first module, in index order, whose range
    contains the address. *)
Lemma find_module_first (mods : list module) (addr : Z) (md : module) :
  find_module mods addr = Some md ->
  exists pre post,
    mods = pre ++ md :: post /\
    (forall x, In x pre -> ~ (mod_start x <= addr < mod_end x)%Z) /\
    (mod_start md <= addr < mod_end md)%Z.
Proof.
  unfold find_module.
  induction mods as [|x rest IH]; simpl; [discriminate|].
  destruct (contains x addr) eqn:Hx.
  - intros [= <-]. exists [], rest. repeat split.
    + intros y [].
    + now apply contains_range.
    + now apply contains_range.
  - intros H. destruct (IH H) as (pre & post & -> & Hpre & Hmd).
    exists (x :: pre), post. repeat split; try tauto.
    intros y [<-|Hy].
    + now apply contains_not_range.
    + now apply Hpre.
Qed.

Lemma find_module_hit (mods : list module) (addr : Z) (md : module) :
  In md mods -> (mod_start md <= addr < mod_end md)%Z ->
  exists md', find_module mods addr = Some md'.
Proof.
  intros Hin Hr. unfold find_module.
  destruct (find (fun x => contains x addr) mods) as [md'|] eqn:Hf.
  - now exists md'.
  - apply (find_none _ _ Hf) in Hin. apply contains_not_range in Hin. tauto.
Qed.

Lemma find_module_miss (mods : list module) (addr : Z) :
  (forall md, In md mods -> ~ (mod_start md <= addr < mod_end md)%Z) ->
  find_module mods addr = None.
Proof.
  intros H. unfold find_module.
  destruct (find (fun x => contains x addr) mods) as [md'|] eqn:Hf;
    [|reflexivity].
  destruct (find_some _ _ Hf) as [Hin Hc].
  apply contains_range in Hc. now elim (H md' Hin).
Qed.

(** *** The pointer resolver *)

(** One iteration of [check_members] yields exactly when the member gives a
    pointer whose value is not null, and then yields the function at that
    address with the name [find_module] answers, or ["Unknown"]. *)
Lemma check_member_some mods struct member (x : item) :
  check_member mods struct member = Some x <->
  exists v, m struct member = Pointer (Word v) /\ v <> 0%Z /\
    x = (member, {| func_name := member; obj_offset := v |},
         match find_module mods v with
         | Some md => mod_name md
         | None => "Unknown"
         end).
Proof.
  unfold check_member.
  destruct (m struct member) as [| |[|v]] eqn:Hm; simpl.
  - split; [discriminate|]. intros (v & [=] & _).
  - split.
    + destruct (find_module mods 0); intros _; exfalso.
      all: destruct struct as [|ty fs|r]; simpl in Hm; try discriminate.
      all: destruct (assoc member fs); discriminate.
    + intros (v & [=] & _).
  - split; [discriminate|]. intros (v & [=] & _).
  - destruct (Z.eqb_spec v 0) as [->|Hv]; simpl.
    + split; [discriminate|]. intros (v & [= <-] & Hv & _). now elim Hv.
    + split.
      * intros H. exists v. repeat split; try assumption.
        destruct (find_module mods v); now inversion H.
      * intros (v' & [= <-] & _ & ->).
        now destruct (find_module mods v).
Qed.

Lemma yields_check_members mods struct members (x : item) :
  In x (yields (check_members mods struct members)) <->
  exists member,
    In member (iterate members) /\ check_member mods struct member = Some x.
Proof.
  unfold yields, check_members. rewrite in_flat_map. split.
  - intros ([member o] & Hin & Hx). apply in_map_iff in Hin.
    destruct Hin as (member' & [= <- <-] & Hin). simpl in Hx.
    exists member'. split; [assumption|].
    destruct (check_member mods struct member') as [y|]; simpl in Hx.
    + destruct Hx as [->|[]]. reflexivity.
    + destruct Hx.
  - intros (member & Hin & Hx).
    exists (member, check_member mods struct member). split.
    + apply in_map_iff. now exists member.
    + simpl. rewrite Hx. now left.
Qed.


(** C3: for a member of the list whose field holds a non-null pointer [v],
    the pointer resolver [check_members] yields the function at [v] with a
    module name fixed by the module index.  If [v] lies in the range
    [[mod_start, mod_end)] of some module of the index, the name is that of
    the first module of the index whose range contains [v], and nothing else
    is yielded for the member; if [v] lies in the range of no module, the
    name is exactly ["Unknown"]. *)
Theorem check_members_resolves_module
    (mods : list module) (struct : object) (members : seq)
    (member : string) (v : Z) :
  In member (iterate members) ->
  m struct member = Pointer (Word v) ->
  v <> 0%Z ->
  (forall md, In md mods -> (mod_start md <= v < mod_end md)%Z ->
     exists pre md' post,
       mods = pre ++ md' :: post /\
       (forall x, In x pre -> ~ (mod_start x <= v < mod_end x)%Z) /\
       (mod_start md' <= v < mod_end md')%Z /\
       In (member, {| func_name := member; obj_offset := v |}, mod_name md')
          (yields (check_members mods struct members)) /\
       (forall func loc,
          In (member, func, loc) (yields (check_members mods struct members)) ->
          loc = mod_name md')) /\
  ((forall md, In md mods -> ~ (mod_start md <= v < mod_end md)%Z) ->
     In (member, {| func_name := member; obj_offset := v |}, "Unknown")
        (yields (check_members mods struct members)) /\
     (forall func loc,
        In (member, func, loc) (yields (check_members mods struct members)) ->
        loc = "Unknown")).
Proof.
  intros Hin Hm Hv.
  assert (Hone : forall func loc,
             In (member, func, loc)
                (yields (check_members mods struct members)) ->
             loc = match find_module mods v with
                   | Some md => mod_name md
                   | None => "Unknown"
                   end).
  { intros func loc H. apply yields_check_members in H.
    destruct H as (member' & _ & H). apply check_member_some in H.
    destruct H as (v' & Hm' & _ & [= <- _ ->]).
    rewrite Hm in Hm'. now inversion Hm'. }
  assert (Hyes : In (member, {| func_name := member; obj_offset := v |},
                     match find_module mods v with
                     | Some md => mod_name md
                     | None => "Unknown"
                     end)
                    (yields (check_members mods struct members))).
  { apply yields_check_members. exists member. split; [assumption|].
    apply check_member_some. exists v. now repeat split. }
  split.
  - intros md Hmd Hr.
    destruct (find_module_hit mods v md Hmd Hr) as [md' Hf].
    destruct (find_module_first mods v md' Hf) as (pre & post & E & Hpre & Hr').
    rewrite Hf in Hone, Hyes.
    exists pre, md', post. now repeat split.
  - intros Hout. rewrite (find_module_miss mods v Hout) in Hone, Hyes.
    now split.
Qed.

Lemma check_members_resolves_module_witness :
  In "seq_ops.show" (iterate Scenario.fields) /\
  m Scenario.tcp4 "seq_ops.show" = Pointer (Word 5376) /\
  5376%Z <> 0%Z /\
  In Scenario.tcp_mod Scenario.mods /\
  (mod_start Scenario.tcp_mod <= 5376 < mod_end Scenario.tcp_mod)%Z /\
  exists pre md' post,
    Scenario.mods = pre ++ md' :: post /\
    (forall x, In x pre -> ~ (mod_start x <= 5376 < mod_end x)%Z) /\
    (mod_start md' <= 5376 < mod_end md')%Z /\
    In ("seq_ops.show", Scenario.show_func, mod_name md')
       (yields (check_members Scenario.mods Scenario.tcp4 Scenario.fields)) /\
    (forall func loc,
       In ("seq_ops.show", func, loc)
          (yields (check_members Scenario.mods Scenario.tcp4
                                 Scenario.fields)) ->
       loc = mod_name md').
Proof.
  assert (H1 : In "seq_ops.show" (iterate Scenario.fields))
    by (simpl; tauto).
  assert (H2 : m Scenario.tcp4 "seq_ops.show" = Pointer (Word 5376))
    by reflexivity.
  assert (H3 : 5376%Z <> 0%Z) by lia.
  assert (H4 : In Scenario.tcp_mod Scenario.mods) by (left; reflexivity).
  assert (H5 : (mod_start Scenario.tcp_mod <= 5376
                < mod_end Scenario.tcp_mod)%Z) by (simpl; lia).
  repeat (split; [assumption|]).
  exact (proj1 (check_members_resolves_module
                  Scenario.mods Scenario.tcp4 Scenario.fields
                  "seq_ops.show" 5376 H1 H2 H3)
               Scenario.tcp_mod H4 H5).
Defined.

(** The second half at work: [seq_fops.llseek] points into no module. *)
Example llseek_unknown :
  In ("seq_fops.llseek", Scenario.llseek_func, "Unknown")
     (yields (check_members Scenario.mods Scenario.tcp4 Scenario.fields)).
Proof. vm_compute. tauto. Qed.

(** *** What a run of [check_functions] visits and how it ends *)


Lemma for_each_raises {A : Type} (body : A -> trace) (l : list A) (x : A) :
  In x l -> raised (body x) <> None -> raised (for_each body l) <> None.
Proof.
  induction l as [|y rest IH]; simpl; [tauto|].
  intros [->|Hin] Hx; unfold andthen.
  - destruct (raised (body x)) eqn:E; [now rewrite E | now elim Hx].
  - destruct (raised (body y)) eqn:E; [now rewrite E|]. simpl. now apply IH.
Qed.

Lemma for_each_visited {A : Type}
    (body : A -> trace) (expect : A -> list (string * string * string))
    (l : list A) :
  (forall x, In x l ->
     exists rest, expect x = visited (body x) ++ rest /\
                  (raised (body x) = None -> rest = [])) ->
  exists rest, flat_map expect l = visited (for_each body l) ++ rest /\
               (raised (for_each body l) = None -> rest = []).
Proof.
  induction l as [|x l' IH]; intros H; simpl.
  - exists []. now split.
  - destruct (H x (or_introl eq_refl)) as (r & E & Hr).
    destruct IH as (r' & E' & Hr').
    { intros y Hy. apply H. now right. }
    unfold andthen. destruct (raised (body x)) as [e|] eqn:Hx.
    + exists (r ++ flat_map expect l'). rewrite Hx. split; [|discriminate].
      now rewrite E, app_assoc.
    + simpl. exists r'. split; [|assumption].
      rewrite E, E', (Hr eq_refl), app_nil_r. now rewrite app_assoc.
Qed.







(** The list of all checks is a local of [check_functions] that the loops
    never read. *)
Lemma for_check_checks_irrelevant vm mods cs cs' (c : check) :
  for_check vm mods cs c = for_check vm mods cs' c.
Proof.
  unfold for_check. apply for_each_ext; intros variable _.
  unfold for_variable. apply for_each_ext; intros it _.
  apply inner_step_checks_irrelevant.
Qed.

(** *** When the framework's calls fail *)

Lemma andthen_raised_l (t k : trace) (e : exn) :
  raised t = Some e -> andthen t k = t.
Proof. intros H. unfold andthen. now rewrite H. Qed.

Lemma andthen_quiet_inv (t k : trace) :
  raised (andthen t k) = None -> raised t = None /\ raised k = None.
Proof.
  unfold andthen. destruct (raised t) eqn:E; simpl.
  - rewrite E. discriminate.
  - now split.
Qed.

(** With [file_operations] in the layout no call of [CreateChecks] fails,
    and the checks are those of the embedding over the quiet framework. *)
Lemma Raising_CreateChecks_ok (p : layout) (ms : list string) :
  assoc "file_operations" p = Some ms ->
  Raising.CreateChecks p = Ok (CreateChecks p).
Proof.
  intros H. unfold Raising.CreateChecks, CreateChecks.
  unfold Raising.type_members, type_members, has_type, keys.
  rewrite H. cbn [bind].
  destruct (assoc "seq_operations" p) as [ops|]; reflexivity.
Qed.

Lemma Raising_inner_step_eq checks c variable var_ptr
    (it : string * result (option item)) :
  Raising.inner_step checks c variable var_ptr it =
  {| visited := [(name c, variable, fst it)];
     yielded := [];
     raised := match snd it with
               | Raise e => Some e
               | Ok (Some _) => Some (NameError "location")
               | Ok None => None
               end |}.
Proof.
  unfold Raising.inner_step. destruct (snd it) as [o|e]; [|reflexivity].
  rewrite inner_step_eq. reflexivity.
Qed.

(** A check enters the run of one global by its name, its record type and
    its member list only; the list of all checks does not enter at all. *)
Lemma Raising_for_variable_same vm mods cs cs' (c c' : check) variable :
  name c = name c' -> constant_type c = constant_type c' ->
  members c = members c' ->
  Raising.for_variable vm mods cs c variable =
  Raising.for_variable vm mods cs' c' variable.
Proof.
  intros Hn Ht Hm. unfold Raising.for_variable. rewrite Ht, Hm.
  destruct (Raising.get_constant_object vm variable (constant_type c'));
    [|reflexivity].
  apply for_each_ext; intros it _.
  now rewrite !Raising_inner_step_eq, Hn.
Qed.

Lemma Raising_for_check_checks_irrelevant vm mods cs cs' (c : check) :
  Raising.for_check vm mods cs c = Raising.for_check vm mods cs' c.
Proof.
  unfold Raising.for_check. apply for_each_ext; intros variable _.
  now apply Raising_for_variable_same.
Qed.

Lemma Raising_check_functions_yields_nothing vm mods checks :
  yielded (Raising.check_functions vm mods checks) = [].
Proof.
  unfold Raising.check_functions, Raising.for_check.
  apply for_each_yielded_nil; intros c _.
  apply for_each_yielded_nil; intros variable _.
  unfold Raising.for_variable.
  destruct (Raising.get_constant_object vm variable (constant_type c));
    [|reflexivity].
  apply for_each_yielded_nil; intros it _.
  now rewrite Raising_inner_step_eq.
Qed.

Lemma Raising_check_functions_visits vm mods (checks : list check) :
  exists rest,
    combinations checks =
      visited (Raising.check_functions vm mods checks) ++ rest /\
    (raised (Raising.check_functions vm mods checks) = None -> rest = []).
Proof.
  unfold combinations, Raising.check_functions.
  apply for_each_visited; intros c _.
  unfold Raising.for_check. apply for_each_visited; intros variable _.
  unfold Raising.for_variable.
  destruct (Raising.get_constant_object vm variable (constant_type c))
    as [var_ptr|e].
  - unfold Raising.check_members.
    replace (map (fun member => (name c, variable, member))
                 (iterate (members c)))
      with (flat_map (fun it : string * result (option item) =>
                        [(name c, variable, fst it)])
              (map (fun member =>
                      (member, Raising.check_member mods var_ptr member))
                   (iterate (members c)))).
    + apply for_each_visited; intros it _.
      rewrite Raising_inner_step_eq. simpl. exists []. now split.
    + induction (iterate (members c)) as [|x l IH]; simpl; [reflexivity|].
      now rewrite IH.
  - simpl. eexists. split; [reflexivity | discriminate].
Qed.

(** C4, amended: the member enumeration of [CreateChecks] fails on a
    layout that lacks [file_operations], the record type line 47
    instantiates unguarded and the one behind the [seq_fops.] fields as
    well; on every layout that defines it the enumeration returns the two
    checks with one member list.  A [seq_operations] the layout lacks adds
    no field: the list is then the members of [file_operations] followed by
    the same members prefixed with [seq_fops.]; a [seq_operations] it has
    puts its members, prefixed with [seq_ops.], in between. *)
Theorem CreateChecks_needs_file_operations (p : layout) :
  (has_type p "file_operations" = false ->
     Raising.CreateChecks p = Raise (MissingType "file_operations")) /\
  (forall ms, assoc "file_operations" p = Some ms ->
     exists fields : list string,
       Raising.CreateChecks p =
         Ok [ {| name := "tcp";
                 constant_type := "tcp_seq_afinfo";
                 global_vars := ["tcp6_seq_afinfo"; "tcp4_seq_afinfo"];
                 members := ListOf fields |};
              {| name := "udp";
                 constant_type := "udp_seq_afinfo";
                 global_vars := ["udplite6_seq_afinfo"; "udp6_seq_afinfo";
                                 "udplite4_seq_afinfo"; "udp4_seq_afinfo"];
                 members := ListOf fields |} ] /\
       (has_type p "seq_operations" = false ->
          fields = ms ++ map (String.append "seq_fops.") ms) /\
       (forall ops, assoc "seq_operations" p = Some ops ->
          fields = ms ++ map (String.append "seq_ops.") ops
                      ++ map (String.append "seq_fops.") ms)).
Proof.
  split.
  - unfold has_type, Raising.CreateChecks, Raising.type_members.
    now destruct (assoc "file_operations" p).
  - intros ms H. unfold Raising.CreateChecks, Raising.type_members, has_type.
    rewrite H. cbn [bind].
    destruct (assoc "seq_operations" p) as [ops|]; cbn [bind];
      eexists; (split; [reflexivity|]); split.
    + discriminate.
    + intros ops' [= <-]. now rewrite <- app_assoc.
    + reflexivity.
    + discriminate.
Qed.

Lemma CreateChecks_needs_file_operations_witness :
  has_type Scenario.bare_profile "file_operations" = false /\
  Raising.CreateChecks Scenario.bare_profile
    = Raise (MissingType "file_operations") /\
  assoc "file_operations" Scenario.old_profile = Some ["open"; "llseek"] /\
  has_type Scenario.old_profile "seq_operations" = false /\
  exists fields : list string,
    Raising.CreateChecks Scenario.old_profile =
      Ok [ {| name := "tcp";
              constant_type := "tcp_seq_afinfo";
              global_vars := ["tcp6_seq_afinfo"; "tcp4_seq_afinfo"];
              members := ListOf fields |};
           {| name := "udp";
              constant_type := "udp_seq_afinfo";
              global_vars := ["udplite6_seq_afinfo"; "udp6_seq_afinfo";
                              "udplite4_seq_afinfo"; "udp4_seq_afinfo"];
              members := ListOf fields |} ] /\
    fields = ["open"; "llseek"]
               ++ map (String.append "seq_fops.") ["open"; "llseek"].
Proof.
  assert (H1 : has_type Scenario.bare_profile "file_operations" = false)
    by reflexivity.
  assert (H2 : assoc "file_operations" Scenario.old_profile
               = Some ["open"; "llseek"]) by reflexivity.
  assert (H3 : has_type Scenario.old_profile "seq_operations" = false)
    by reflexivity.
  split; [exact H1|].
  split; [exact (proj1 (CreateChecks_needs_file_operations
                          Scenario.bare_profile) H1)|].
  split; [exact H2|]. split; [exact H3|].
  destruct (proj2 (CreateChecks_needs_file_operations Scenario.old_profile)
                  ["open"; "llseek"] H2) as (fields & E & Hnone & _).
  exists fields. split; [exact E | exact (Hnone H3)].
Defined.

(** C4, as stated, fails: the layout below lacks [seq_operations] and
    [file_operations], the types of the two sub-tables, and on it the
    enumeration does not return a field list: line 47 fails, and with it
    the scan. *)
Lemma CreateChecks_fails_without_file_operations :
  has_type Scenario.bare_profile "seq_operations" = false /\
  has_type Scenario.bare_profile "file_operations" = false /\
  ~ (exists checks, Raising.CreateChecks Scenario.bare_profile = Ok checks) /\
  raised (Raising.scan Scenario.bare_profile Scenario.vm Scenario.mods)
    = Some (MissingType "file_operations").
Proof.
  repeat split. intros [checks H]. discriminate H.
Qed.

(** ** Further properties of the plugin *)

Lemma for_each_map {A B : Type} (g : A -> B) (f : B -> trace) (l : list A) :
  for_each f (map g l) = for_each (fun x => f (g x)) l.
Proof.
  induction l as [|x rest IH]; simpl; [reflexivity | now rewrite IH].
Qed.

(** An iteration of [check_members] yields exactly when the object the
    member gives is true. *)
Lemma check_member_truth mods struct member :
  match check_member mods struct member with
  | Some _ => true
  | None => false
  end = truth (m struct member).
Proof.
  unfold check_member. destruct (truth (m struct member)); simpl.
  - now destruct (find_module mods _).
  - reflexivity.
Qed.


(** X1: whatever the address space, the module index and the checks, a run
    of [check_functions] yields no finding. *)
Theorem check_functions_never_yields
    (vm : address_space) (mods : list module) (checks : list check) :
  yielded (check_functions vm mods checks) = [].
Proof.
  unfold check_functions. apply for_each_yielded_nil; intros c _.
  unfold for_check. apply for_each_yielded_nil; intros variable _.
  unfold for_variable. apply for_each_yielded_nil; intros it _.
  rewrite inner_step_eq. reflexivity.
Qed.






(** X5: the module index has no influence on a run of [check_functions]:
    the resolved name is unpacked into [location1] and never read again,
    so with any two indexes the run visits the same combinations, yields
    the same and ends the same way. *)
Theorem check_functions_ignores_modules
    (vm : address_space) (mods mods' : list module) (checks : list check) :
  check_functions vm mods checks = check_functions vm mods' checks.
Proof.
  unfold check_functions. apply for_each_ext; intros c _.
  unfold for_check. apply for_each_ext; intros variable _.
  unfold for_variable, check_members. rewrite !for_each_map.
  apply for_each_ext; intros member _.
  rewrite !inner_step_eq. simpl. f_equal.
  pose proof (check_member_truth mods
                (get_constant_object vm variable (constant_type c)) member)
    as H1.
  pose proof (check_member_truth mods'
                (get_constant_object vm variable (constant_type c)) member)
    as H2.
  destruct (check_member mods _ member), (check_member mods' _ member);
    try reflexivity; rewrite <- H1 in H2; discriminate.
Qed.

(** X6: a run of [check_functions] reads no global but those its checks
    name: two address spaces that hold the same table under each of these
    names give the same run, whatever else they hold. *)
Theorem check_functions_reads_named_globals
    (vm vm' : address_space) (mods : list module) (checks : list check) :
  (forall c variable, In c checks -> In variable (global_vars c) ->
     assoc variable vm' = assoc variable vm) ->
  check_functions vm' mods checks = check_functions vm mods checks.
Proof.
  intros H. unfold check_functions. apply for_each_ext; intros c Hc.
  unfold for_check. apply for_each_ext; intros variable Hv.
  unfold for_variable, get_constant_object. now rewrite (H c variable Hc Hv).
Qed.

Lemma check_functions_reads_named_globals_witness :
  (forall c variable,
     In c (CreateChecks Scenario.profile) -> In variable (global_vars c) ->
     assoc variable Scenario.wider_vm = assoc variable Scenario.vm) /\
  check_functions Scenario.wider_vm Scenario.mods
    (CreateChecks Scenario.profile) =
  check_functions Scenario.vm Scenario.mods (CreateChecks Scenario.profile).
Proof.
  assert (H : forall c variable,
             In c (CreateChecks Scenario.profile) ->
             In variable (global_vars c) ->
             assoc variable Scenario.wider_vm = assoc variable Scenario.vm).
  { intros c variable [<-|[<-|[]]] Hv; simpl in Hv;
      repeat (destruct Hv as [<-|Hv]; [reflexivity|]); destruct Hv. }
  split; [exact H|].
  exact (check_functions_reads_named_globals
           Scenario.vm Scenario.wider_vm Scenario.mods
           (CreateChecks Scenario.profile) H).
Defined.

(** X7: when the layout defines [file_operations], the member list of each
    check is, in this order, the members of [file_operations], the members
    of [seq_operations] (if the layout has it) prefixed with [seq_ops.],
    and the members of [file_operations] again prefixed with [seq_fops.];
    so the scan has six times twice the one count plus the other
    combinations to look at. *)
Theorem CreateChecks_members_exact
    (p : layout) (ms : list string) (c : check) :
  assoc "file_operations" p = Some ms ->
  In c (CreateChecks p) ->
  iterate (members c) =
    ms ++
    map (String.append "seq_ops.") (iterate (type_members p "seq_operations"))
    ++ map (String.append "seq_fops.") ms /\
  length (combinations (CreateChecks p)) =
    6 * (2 * length ms
         + length (iterate (type_members p "seq_operations"))).
Proof.
  intros Hms Hc.
  assert (E : forall c', In c' (CreateChecks p) ->
            iterate (members c') =
              ms ++
              map (String.append "seq_ops.")
                  (iterate (type_members p "seq_operations"))
              ++ map (String.append "seq_fops.") ms).
  { intros c' Hc'. rewrite (members_of_checks p c' Hc').
    unfold has_type, type_members, keys. rewrite Hms.
    destruct (assoc "seq_operations" p) as [ops|]; cbn [iterate extend map].
    - now rewrite <- app_assoc.
    - reflexivity. }
  split; [now apply E|].
  assert (Ht : In (hd c (CreateChecks p)) (CreateChecks p)) by now left.
  pose proof (E _ Ht) as Hf.
  unfold combinations. unfold CreateChecks in Hf |- *.
  cbn [hd members] in Hf.
  cbn [flat_map global_vars members name].
  rewrite !length_app, !length_map, Hf, !length_app, !length_map.
  cbn [length]. lia.
Qed.

Lemma CreateChecks_members_exact_witness :
  assoc "file_operations" Scenario.profile = Some ["open"; "llseek"] /\
  In Scenario.udp_check (CreateChecks Scenario.profile) /\
  iterate (members Scenario.udp_check) =
    ["open"; "llseek"] ++
    map (String.append "seq_ops.")
        (iterate (type_members Scenario.profile "seq_operations"))
    ++ map (String.append "seq_fops.") ["open"; "llseek"] /\
  length (combinations (CreateChecks Scenario.profile)) =
    6 * (2 * length ["open"; "llseek"]
         + length (iterate (type_members Scenario.profile "seq_operations"))).
Proof.
  assert (H1 : assoc "file_operations" Scenario.profile
               = Some ["open"; "llseek"]) by reflexivity.
  assert (H2 : In Scenario.udp_check (CreateChecks Scenario.profile))
    by (right; left; reflexivity).
  split; [exact H1|]. split; [exact H2|].
  exact (CreateChecks_members_exact
           Scenario.profile ["open"; "llseek"] Scenario.udp_check H1 H2).
Defined.


(** X9: for a layout that defines [file_operations], [render] hands the
    renderer the header row and nothing more, whatever the kernel holds: no
    table row is ever written; and [render] ends the way the run of
    [check_functions] over [CreateChecks] does. *)
Theorem render_writes_header_only
    (profile : layout) (vm : address_space) (mods : list module)
    (out : list row) :
  has_type profile "file_operations" = true ->
  fst (render profile vm mods out) = out ++ [afinfo_header] /\
  snd (render profile vm mods out) =
    raised (check_functions vm mods (CreateChecks profile)).
Proof.
  intros _. unfold render. cbv zeta. cbn [fst snd].
  rewrite check_functions_yields_nothing. cbn [map].
  rewrite app_nil_r. split; reflexivity.
Qed.

Lemma render_writes_header_only_witness :
  has_type Scenario.profile "file_operations" = true /\
  fst (render Scenario.profile Scenario.vm Scenario.mods [])
    = [] ++ [afinfo_header] /\
  snd (render Scenario.profile Scenario.vm Scenario.mods []) =
    raised (check_functions Scenario.vm Scenario.mods
              (CreateChecks Scenario.profile)).
Proof.
  assert (H : has_type Scenario.profile "file_operations" = true)
    by reflexivity.
  split; [exact H|].
  exact (render_writes_header_only
           Scenario.profile Scenario.vm Scenario.mods [] H).
Defined.

(** X10: checks run one after the other.  The run over a list of checks
    followed by further checks is the run over the first list and then, if
    that did not raise, the run over the further ones; so when the run over
    the first list raises, the further checks are never reached. *)
Theorem check_functions_app
    (vm : address_space) (mods : list module) (cs1 cs2 : list check) :
  check_functions vm mods (cs1 ++ cs2) =
    andthen (check_functions vm mods cs1) (check_functions vm mods cs2) /\
  (raised (check_functions vm mods cs1) <> None ->
   check_functions vm mods (cs1 ++ cs2) = check_functions vm mods cs1).
Proof.
  assert (E : check_functions vm mods (cs1 ++ cs2) =
              andthen (check_functions vm mods cs1)
                      (check_functions vm mods cs2)).
  { unfold check_functions. rewrite for_each_app.
    rewrite (for_each_ext (for_check vm mods (cs1 ++ cs2))
                          (for_check vm mods cs1) cs1)
      by (intros; apply for_check_checks_irrelevant).
    rewrite (for_each_ext (for_check vm mods (cs1 ++ cs2))
                          (for_check vm mods cs2) cs2)
      by (intros; apply for_check_checks_irrelevant).
    reflexivity. }
  split; [exact E|].
  intros H. rewrite E. unfold andthen.
  destruct (raised (check_functions vm mods cs1)); [reflexivity|now elim H].
Qed.

Lemma check_functions_app_witness :
  raised (check_functions Scenario.vm Scenario.mods [Scenario.tcp_check])
    <> None /\
  check_functions Scenario.vm Scenario.mods
    ([Scenario.tcp_check] ++ [Scenario.udp_check]) =
  check_functions Scenario.vm Scenario.mods [Scenario.tcp_check].
Proof.
  assert (H : raised (check_functions Scenario.vm Scenario.mods
                        [Scenario.tcp_check]) <> None)
    by (vm_compute; discriminate).
  split; [exact H|].
  exact (proj2 (check_functions_app Scenario.vm Scenario.mods
                  [Scenario.tcp_check] [Scenario.udp_check]) H).
Defined.
(** C5, amended: when a global of a check does not exist in this kernel
    build, [get_constant_object] fails with [SymbolNotFound] and
    [check_functions] does not handle it.  If the run got as far as that
    global without raising, it has visited exactly the combinations of the
    checks and globals before it, yields no finding, and ends there with
    the failure: the global is not skipped, and the globals and checks
    after it are not visited. *)
Theorem absent_global_ends_run
    (vm : address_space) (mods : list module)
    (cs1 cs2 : list check) (c : check)
    (pre post : list string) (variable : string) :
  assoc variable vm = None ->
  global_vars c = pre ++ variable :: post ->
  raised (Raising.check_functions vm mods
            (cs1 ++ [ {| name := name c;
                         constant_type := constant_type c;
                         global_vars := pre;
                         members := members c |} ])) = None ->
  Raising.check_functions vm mods (cs1 ++ c :: cs2) =
    {| visited :=
         combinations (cs1 ++ [ {| name := name c;
                                   constant_type := constant_type c;
                                   global_vars := pre;
                                   members := members c |} ]);
       yielded := [];
       raised := Some (SymbolNotFound variable) |}.
Proof.
  intros Habs Hvars Hquiet.
  set (c' := {| name := name c; constant_type := constant_type c;
                global_vars := pre; members := members c |}) in *.
  set (CS := cs1 ++ c :: cs2).
  set (A := for_each (Raising.for_check vm mods CS) cs1).
  set (B := for_each (Raising.for_variable vm mods CS c) pre).
  set (R := {| visited := []; yielded := [];
               raised := Some (SymbolNotFound variable) |}).
  assert (Hbefore : Raising.check_functions vm mods (cs1 ++ [c']) =
                    andthen A (andthen B done)).
  { unfold Raising.check_functions. rewrite for_each_app. simpl.
    rewrite (for_each_ext (Raising.for_check vm mods (cs1 ++ [c']))
                          (Raising.for_check vm mods CS) cs1)
      by (intros; apply Raising_for_check_checks_irrelevant).
    unfold Raising.for_check at 2. simpl global_vars.
    rewrite (for_each_ext (Raising.for_variable vm mods (cs1 ++ [c']) c')
                          (Raising.for_variable vm mods CS c) pre)
      by (intros; now apply Raising_for_variable_same).
    reflexivity. }
  assert (Hhere : Raising.for_variable vm mods CS c variable = R).
  { unfold Raising.for_variable, Raising.get_constant_object.
    now rewrite Habs. }
  destruct (Raising_check_functions_visits vm mods (cs1 ++ [c']))
    as (rest & Hcomb & Hrest).
  rewrite (Hrest Hquiet), app_nil_r in Hcomb.
  pose proof (Raising_check_functions_yields_nothing vm mods (cs1 ++ [c']))
    as Hyield.
  rewrite Hbefore in Hquiet, Hcomb, Hyield.
  destruct (andthen_quiet_inv _ _ Hquiet) as [HA HAB].
  destruct (andthen_quiet_inv _ _ HAB) as [HB _].
  assert (Hrun : Raising.check_functions vm mods CS =
                 andthen A (andthen (andthen B R)
                              (for_each (Raising.for_check vm mods CS) cs2))).
  { unfold Raising.check_functions, CS. rewrite for_each_app. simpl.
    fold CS. fold A. f_equal. f_equal.
    unfold Raising.for_check. rewrite Hvars, for_each_app. simpl.
    fold B. rewrite Hhere.
    now rewrite (andthen_raised_l R _ (SymbolNotFound variable)). }
  fold CS. rewrite Hrun, Hcomb.
  unfold andthen in *. rewrite HA, HB in *. simpl in *.
  now rewrite Hyield.
Qed.

Lemma absent_global_ends_run_witness :
  assoc "udp6_seq_afinfo" Scenario.vm_without_udp6 = None /\
  global_vars Scenario.udp_check =
    ["udplite6_seq_afinfo"] ++
    "udp6_seq_afinfo" :: ["udplite4_seq_afinfo"; "udp4_seq_afinfo"] /\
  raised (Raising.check_functions Scenario.vm_without_udp6 Scenario.mods
            ([Scenario.tcp_check] ++
             [ {| name := name Scenario.udp_check;
                  constant_type := constant_type Scenario.udp_check;
                  global_vars := ["udplite6_seq_afinfo"];
                  members := members Scenario.udp_check |} ])) = None /\
  Raising.check_functions Scenario.vm_without_udp6 Scenario.mods
    ([Scenario.tcp_check] ++ Scenario.udp_check :: []) =
    {| visited :=
         combinations
           ([Scenario.tcp_check] ++
            [ {| name := name Scenario.udp_check;
                 constant_type := constant_type Scenario.udp_check;
                 global_vars := ["udplite6_seq_afinfo"];
                 members := members Scenario.udp_check |} ]);
       yielded := [];
       raised := Some (SymbolNotFound "udp6_seq_afinfo") |}.
Proof.
  assert (H1 : assoc "udp6_seq_afinfo" Scenario.vm_without_udp6 = None)
    by reflexivity.
  assert (H2 : global_vars Scenario.udp_check =
               ["udplite6_seq_afinfo"] ++
               "udp6_seq_afinfo" :: ["udplite4_seq_afinfo"; "udp4_seq_afinfo"])
    by reflexivity.
  assert (H3 : raised (Raising.check_functions
                         Scenario.vm_without_udp6 Scenario.mods
                         ([Scenario.tcp_check] ++
                          [ {| name := name Scenario.udp_check;
                               constant_type :=
                                 constant_type Scenario.udp_check;
                               global_vars := ["udplite6_seq_afinfo"];
                               members := members Scenario.udp_check |} ]))
               = None) by reflexivity.
  split; [exact H1|]. split; [exact H2|]. split; [exact H3|].
  exact (absent_global_ends_run
           Scenario.vm_without_udp6 Scenario.mods [Scenario.tcp_check] []
           Scenario.udp_check ["udplite6_seq_afinfo"]
           ["udplite4_seq_afinfo"; "udp4_seq_afinfo"] "udp6_seq_afinfo"
           H1 H2 H3).
Defined.

(** C5, as stated, fails: in the build below every table exists but
    [udp6_seq_afinfo].  The scan does not skip it and go on: it ends at it
    with [SymbolNotFound], after fifteen of the thirty combinations, and
    the tables of [udplite4_seq_afinfo] and [udp4_seq_afinfo], which come
    after it, are never looked at. *)
Lemma absent_udp6_ends_scan :
  assoc "udp6_seq_afinfo" Scenario.vm_without_udp6 = None /\
  raised (Raising.scan Scenario.profile Scenario.vm_without_udp6
            Scenario.mods) = Some (SymbolNotFound "udp6_seq_afinfo") /\
  visited (Raising.scan Scenario.profile Scenario.vm_without_udp6
             Scenario.mods) =
    firstn 15 (combinations (CreateChecks Scenario.profile)) /\
  In ("udp", "udplite4_seq_afinfo", "seq_fops.open")
     (combinations (CreateChecks Scenario.profile)) /\
  ~ In ("udp", "udplite4_seq_afinfo", "seq_fops.open")
       (visited (Raising.scan Scenario.profile Scenario.vm_without_udp6
                              Scenario.mods)) /\
  ~ In ("udp", "udp4_seq_afinfo", "seq_fops.open")
       (visited (Raising.scan Scenario.profile Scenario.vm_without_udp6
                              Scenario.mods)).
Proof.
  split; [reflexivity|]. split; [reflexivity|]. split; [reflexivity|].
  split; [vm_compute; tauto|].
  split; vm_compute; intros H;
    repeat (destruct H as [H|H]; [discriminate H|]); exact H.
Qed.


Lemma for_each_skips {A : Type}
    (body : A -> trace) (f : A -> string * string * string) (l : list A) :
  (forall x, In x l ->
     body x = {| visited := [f x]; yielded := []; raised := None |}) ->
  for_each body l = {| visited := map f l; yielded := []; raised := None |}.
Proof.
  induction l as [|x rest IH]; intros H; simpl; [reflexivity|].
  rewrite (H x (or_introl eq_refl)), IH; [reflexivity|].
  intros y Hy. apply H. now right.
Qed.

(** C6, amended: [check_members] has no recovery of its own.  A member
    that the struct lacks or whose pointer is null is skipped without a
    yield; a pointer field whose read fails with [ReadError] is not: the
    failure ends the iteration over the struct at that member, after the
    members before it, and through [check_functions] it ends the whole
    run. *)
Theorem read_error_ends_run
    (vm : address_space) (mods : list module) (checks : list check)
    (c : check) (variable : string) (fields : list (string * read))
    (pre post : list string) (member : string) :
  assoc variable vm = Some fields ->
  iterate (members c) = pre ++ member :: post ->
  assoc member fields = Some Fault ->
  (forall x, In x pre ->
     assoc x fields = None \/ assoc x fields = Some (Word 0)) ->
  Raising.check_member mods (Struct (constant_type c) fields) member
    = Raise (ReadError member) /\
  (forall x, In x pre ->
     Raising.check_member mods (Struct (constant_type c) fields) x
       = Ok None) /\
  Raising.for_variable vm mods checks c variable =
    {| visited := map (fun x => (name c, variable, x)) (pre ++ [member]);
       yielded := [];
       raised := Some (ReadError member) |} /\
  (In c checks -> In variable (global_vars c) ->
   raised (Raising.check_functions vm mods checks) <> None).
Proof.
  intros Hvar Hmem Hfault Hpre.
  assert (Hraise : Raising.check_member mods
                     (Struct (constant_type c) fields) member
                   = Raise (ReadError member)).
  { unfold Raising.check_member, m. now rewrite Hfault. }
  assert (Hskip : forall x, In x pre ->
            Raising.check_member mods (Struct (constant_type c) fields) x
            = Ok None).
  { intros x Hx. unfold Raising.check_member, m.
    destruct (Hpre x Hx) as [-> | ->]; reflexivity. }
  assert (Hrun : Raising.for_variable vm mods checks c variable =
            {| visited := map (fun x => (name c, variable, x))
                              (pre ++ [member]);
               yielded := [];
               raised := Some (ReadError member) |}).
  { unfold Raising.for_variable, Raising.get_constant_object.
    rewrite Hvar. unfold Raising.check_members.
    rewrite Hmem, for_each_map, for_each_app. cbn [for_each].
    rewrite (for_each_skips _ (fun x => (name c, variable, x)) pre).
    - rewrite Raising_inner_step_eq. cbn [fst snd]. rewrite Hraise.
      unfold andthen. cbn [raised visited yielded].
      now rewrite map_app.
    - intros x Hx. rewrite Raising_inner_step_eq. cbn [fst snd].
      now rewrite (Hskip x Hx). }
  repeat split; try assumption.
  intros Hc Hv. unfold Raising.check_functions.
  apply (for_each_raises _ _ c Hc). unfold Raising.for_check.
  apply (for_each_raises _ _ variable Hv).
  rewrite Hrun. discriminate.
Qed.

Lemma read_error_ends_run_witness :
  assoc "tcp6_seq_afinfo" Scenario.faulty_vm
    = Some [ ("seq_ops.show", Fault); ("seq_fops.open", Word 0) ] /\
  iterate (members Scenario.tcp_check) =
    ["open"; "llseek"] ++
    "seq_ops.show" :: ["seq_fops.open"; "seq_fops.llseek"] /\
  assoc "seq_ops.show"
    [ ("seq_ops.show", Fault); ("seq_fops.open", Word 0) ] = Some Fault /\
  Raising.for_variable Scenario.faulty_vm Scenario.mods
    (CreateChecks Scenario.profile) Scenario.tcp_check "tcp6_seq_afinfo" =
    {| visited :=
         map (fun x => (name Scenario.tcp_check, "tcp6_seq_afinfo", x))
             (["open"; "llseek"] ++ ["seq_ops.show"]);
       yielded := [];
       raised := Some (ReadError "seq_ops.show") |}.
Proof.
  assert (H1 : assoc "tcp6_seq_afinfo" Scenario.faulty_vm
               = Some [ ("seq_ops.show", Fault); ("seq_fops.open", Word 0) ])
    by reflexivity.
  assert (H2 : iterate (members Scenario.tcp_check) =
               ["open"; "llseek"] ++
               "seq_ops.show" :: ["seq_fops.open"; "seq_fops.llseek"])
    by reflexivity.
  assert (H3 : assoc "seq_ops.show"
                 [ ("seq_ops.show", Fault); ("seq_fops.open", Word 0) ]
               = Some Fault) by reflexivity.
  assert (H4 : forall x, In x ["open"; "llseek"] ->
             assoc x [ ("seq_ops.show", Fault); ("seq_fops.open", Word 0) ]
               = None \/
             assoc x [ ("seq_ops.show", Fault); ("seq_fops.open", Word 0) ]
               = Some (Word 0)).
  { intros x [<-|[<-|[]]]; left; reflexivity. }
  split; [exact H1|]. split; [exact H2|]. split; [exact H3|].
  exact (proj1 (proj2 (proj2
           (read_error_ends_run
              Scenario.faulty_vm Scenario.mods
              (CreateChecks Scenario.profile) Scenario.tcp_check
              "tcp6_seq_afinfo"
              [ ("seq_ops.show", Fault); ("seq_fops.open", Word 0) ]
              ["open"; "llseek"] ["seq_fops.open"; "seq_fops.llseek"]
              "seq_ops.show" H1 H2 H3 H4)))).
Defined.

(** C6, as stated, fails: on the table below the read of [seq_ops.show]
    fails.  [check_members] does not treat it as it treats the same table
    with a null pointer in its place, which it skips: it raises
    [ReadError], and the scan ends there, at the third combination. *)
Lemma read_error_is_not_null_pointer :
  Raising.check_member Scenario.mods
    (Struct "tcp_seq_afinfo"
       [ ("seq_ops.show", Fault); ("seq_fops.open", Word 0) ])
    "seq_ops.show" = Raise (ReadError "seq_ops.show") /\
  Raising.check_member Scenario.mods
    (Struct "tcp_seq_afinfo"
       (null_on_fault
          [ ("seq_ops.show", Fault); ("seq_fops.open", Word 0) ]))
    "seq_ops.show" = Ok None /\
  Raising.scan Scenario.profile Scenario.faulty_vm Scenario.mods =
    {| visited := firstn 3 (combinations (CreateChecks Scenario.profile));
       yielded := [];
       raised := Some (ReadError "seq_ops.show") |}.
Proof. repeat split. Qed.

(** *** Two scans in a row *)

Lemma deref_alloc_old (h : Store.heap) (l : list string) (r : Store.ref) :
  r < length h -> Store.deref (h ++ [l]) r = Store.deref h r.
Proof. intros H. unfold Store.deref. now apply app_nth1. Qed.

Lemma deref_alloc_new (h : Store.heap) (l : list string) :
  Store.deref (h ++ [l]) (length h) = l.
Proof. unfold Store.deref. now rewrite nth_middle. Qed.

Lemma update_length (h : Store.heap) (r : Store.ref) (l : list string) :
  length (Store.update h r l) = length h.
Proof.
  revert r. induction h as [|x rest IH]; intros [|r]; simpl; auto.
Qed.

Lemma deref_update_same (h : Store.heap) (r : Store.ref) (l : list string) :
  r < length h -> Store.deref (Store.update h r l) r = l.
Proof.
  unfold Store.deref. revert r.
  induction h as [|x rest IH]; intros [|r] H; simpl in *; try lia.
  - reflexivity.
  - apply IH. lia.
Qed.

Lemma deref_update_other (h : Store.heap) (r r' : Store.ref)
    (l : list string) :
  r <> r' -> Store.deref (Store.update h r l) r' = Store.deref h r'.
Proof.
  unfold Store.deref. revert r r'.
  induction h as [|x rest IH]; intros [|r] [|r'] H; simpl; try reflexivity.
  - now elim H.
  - apply IH. lia.
Qed.

Lemma assoc_In {A : Type} (n : string) (l : list (string * A)) (v : A) :
  assoc n l = Some v -> In (n, v) l.
Proof.
  induction l as [|[k w] rest IH]; simpl; [discriminate|].
  destruct (String.eqb_spec n k) as [->|_].
  - intros [= ->]. now left.
  - intros H. right. now apply IH.
Qed.

Lemma assoc_layout_of (p : Store.profile_objects) (h : Store.heap)
    (n : string) :
  assoc n (Store.layout_of p h) =
  match assoc n p with
  | Some r => Some (Store.deref h r)
  | None => None
  end.
Proof.
  unfold Store.layout_of.
  induction p as [|[k r] rest IH]; simpl; [reflexivity|].
  destruct (String.eqb n k); [reflexivity | exact IH].
Qed.

Lemma layout_of_frame (p : Store.profile_objects) (h h' : Store.heap) :
  (forall n r, In (n, r) p -> Store.deref h' r = Store.deref h r) ->
  Store.layout_of p h' = Store.layout_of p h.
Proof.
  intros H. unfold Store.layout_of. apply map_ext_in.
  intros [n r] Hin. simpl. now rewrite (H n r Hin).
Qed.

(** [CreateChecks] over the store builds the checks of [CreateChecks] over
    the layout the profile stands for, and leaves the objects of the
    profile untouched; what it leaves behind is the list it made. *)
Lemma Store_CreateChecks_refines (p : Store.profile_objects)
    (h : Store.heap) :
  Store.well_formed p h ->
  map (Store.read_check (snd (Store.CreateChecks p h)))
      (fst (Store.CreateChecks p h)) =
    CreateChecks (Store.layout_of p h) /\
  (forall n r, In (n, r) p ->
     Store.deref (snd (Store.CreateChecks p h)) r = Store.deref h r) /\
  length h <= length (snd (Store.CreateChecks p h)).
Proof.
  intros Hwf.
  unfold Store.CreateChecks, Store.keys, CreateChecks.
  unfold has_type, type_members, keys, Store.has_type, Store.iterate.
  rewrite !assoc_layout_of.
  destruct (assoc "file_operations" p) as [r|] eqn:Ef.
  - pose proof (Hwf _ _ (assoc_In _ _ _ Ef)) as Hr.
    unfold Store.alloc.
    set (h1 := h ++ [Store.deref h r]).
    assert (Hlen1 : length h1 = S (length h))
      by (unfold h1; rewrite length_app; simpl; lia).
    assert (Hold1 : forall n r0, In (n, r0) p ->
              Store.deref h1 r0 = Store.deref h r0).
    { intros n r0 Hin. apply deref_alloc_old. exact (Hwf n r0 Hin). }
    assert (Hnew1 : Store.deref h1 (length h) = Store.deref h r)
      by apply deref_alloc_new.
    destruct (assoc "seq_operations" p) as [rs|] eqn:Es.
    + pose proof (assoc_In _ _ _ Es) as Hins.
      pose proof (Hwf _ _ Hins) as Hrs.
      cbv beta iota zeta. fold h1. cbn [fst snd].
      set (h2 := Store.extend h1 (@Some Store.ref (length h))
                   (map (fun x => String.append "seq_ops." x)
                        (Store.deref h1 rs))).
      assert (Hlen2 : length h2 = S (length h))
        by (unfold h2, Store.extend; now rewrite update_length).
      assert (Hold2 : forall n r0, In (n, r0) p ->
                Store.deref h2 r0 = Store.deref h r0).
      { intros n r0 Hin. unfold h2, Store.extend.
        rewrite deref_update_other; [now apply (Hold1 n)|].
        pose proof (Hwf n r0 Hin). lia. }
      assert (Hnew2 : Store.deref h2 (length h) =
                Store.deref h r ++
                map (fun x => String.append "seq_ops." x) (Store.deref h rs)).
      { unfold h2, Store.extend. rewrite deref_update_same by lia.
        now rewrite Hnew1, (Hold1 _ _ Hins). }
      set (h3 := Store.extend h2 (@Some Store.ref (length h))
                   (map (fun x => String.append "seq_fops." x)
                        (Store.deref h2 r))).
      assert (Hnew3 : Store.deref h3 (length h) =
                (Store.deref h r ++
                 map (fun x => String.append "seq_ops." x)
                     (Store.deref h rs)) ++
                map (fun x => String.append "seq_fops." x)
                    (Store.deref h r)).
      { unfold h3, Store.extend. rewrite deref_update_same by lia.
        now rewrite Hnew2, (Hold2 _ _ (assoc_In _ _ _ Ef)). }
      split; [|split].
      * cbn [map]. unfold Store.read_check.
        cbn [Store.o_name Store.o_constant_type Store.o_global_vars
             Store.o_members extend iterate].
        now rewrite Hnew3.
      * intros n r0 Hin. unfold h3, Store.extend.
        rewrite deref_update_other; [now apply (Hold2 n)|].
        pose proof (Hwf n r0 Hin). lia.
      * unfold h3, Store.extend. rewrite update_length. lia.
    + cbv beta iota zeta. fold h1. cbn [fst snd].
      set (h3 := Store.extend h1 (@Some Store.ref (length h))
                   (map (fun x => String.append "seq_fops." x)
                        (Store.deref h1 r))).
      assert (Hnew3 : Store.deref h3 (length h) =
                Store.deref h r ++
                map (fun x => String.append "seq_fops." x)
                    (Store.deref h r)).
      { unfold h3, Store.extend. rewrite deref_update_same by lia.
        now rewrite Hnew1, (Hold1 _ _ (assoc_In _ _ _ Ef)). }
      split; [|split].
      * cbn [map]. unfold Store.read_check.
        cbn [Store.o_name Store.o_constant_type Store.o_global_vars
             Store.o_members extend iterate].
        now rewrite Hnew3.
      * intros n r0 Hin. unfold h3, Store.extend.
        rewrite deref_update_other; [now apply (Hold1 n)|].
        pose proof (Hwf n r0 Hin). lia.
      * unfold h3, Store.extend. rewrite update_length. lia.
  - cbv beta iota zeta. cbn [fst snd Store.extend].
    destruct (assoc "seq_operations" p); cbn [fst snd Store.extend];
      (split; [reflexivity|]); split; auto.
Qed.

(** One scan over the store is the scan over the layout the profile
    stands for, and it leaves that layout as it was. *)
Lemma Store_scan_refines (p : Store.profile_objects)
    (vm : address_space) (mods : list module) (h : Store.heap) :
  Store.well_formed p h ->
  fst (Store.scan p vm mods h) = scan (Store.layout_of p h) vm mods /\
  Store.layout_of p (snd (Store.scan p vm mods h)) = Store.layout_of p h /\
  Store.well_formed p (snd (Store.scan p vm mods h)).
Proof.
  intros Hwf.
  destruct (Store_CreateChecks_refines p h Hwf) as (Hchecks & Hframe & Hlen).
  unfold Store.scan, scan.
  destruct (Store.CreateChecks p h) as [checks h'].
  cbn [fst snd] in *. split; [|split].
  - now rewrite Hchecks.
  - now apply layout_of_frame.
  - intros n r Hin. pose proof (Hwf n r Hin). lia.
Qed.

(** C8: running the scan twice in a row against the same address space
    and the same module index gives the same run twice.  The first scan
    leaves a list object behind in the heap, the one [keys()] made and
    [extend] changed; the second scan is run in the heap the first one
    left, and still visits the same combinations, yields the same findings
    in the same order and ends the same way, because the member mappings
    of the profile are as they were. *)
Theorem second_scan_repeats_first
    (p : Store.profile_objects) (vm : address_space) (mods : list module)
    (h : Store.heap) :
  Store.well_formed p h ->
  fst (Store.scan p vm mods (snd (Store.scan p vm mods h))) =
    fst (Store.scan p vm mods h) /\
  yielded (fst (Store.scan p vm mods (snd (Store.scan p vm mods h)))) =
    yielded (fst (Store.scan p vm mods h)) /\
  Store.layout_of p (snd (Store.scan p vm mods h)) = Store.layout_of p h.
Proof.
  intros Hwf.
  destruct (Store_scan_refines p vm mods h Hwf) as (H1 & Hlay & Hwf').
  destruct (Store_scan_refines p vm mods _ Hwf') as (H2 & _ & _).
  assert (E : fst (Store.scan p vm mods (snd (Store.scan p vm mods h))) =
              fst (Store.scan p vm mods h))
    by now rewrite H2, Hlay, H1.
  split; [exact E|]. split; [now rewrite E | exact Hlay].
Qed.

Lemma second_scan_repeats_first_witness :
  Store.well_formed Scenario.profile_objects Scenario.heap /\
  snd (Store.scan Scenario.profile_objects Scenario.vm Scenario.mods
         Scenario.heap) <> Scenario.heap /\
  fst (Store.scan Scenario.profile_objects Scenario.vm Scenario.mods
         (snd (Store.scan Scenario.profile_objects Scenario.vm
                 Scenario.mods Scenario.heap))) =
  fst (Store.scan Scenario.profile_objects Scenario.vm Scenario.mods
         Scenario.heap).
Proof.
  assert (H : Store.well_formed Scenario.profile_objects Scenario.heap).
  { intros n r [E|[E|[]]]; inversion E; simpl; lia. }
  split; [exact H|]. split; [vm_compute; discriminate|].
  exact (proj1 (second_scan_repeats_first
                  Scenario.profile_objects Scenario.vm Scenario.mods
                  Scenario.heap H)).
Defined.

(** The store at work on the example: the profile stands for the layout
    of the example, the scan over it is the scan of the example, and it
    leaves one more object in the heap, the member list. *)
Example store_scan_of_example :
  Store.layout_of Scenario.profile_objects Scenario.heap = Scenario.profile /\
  fst (Store.scan Scenario.profile_objects Scenario.vm Scenario.mods
         Scenario.heap) =
    scan Scenario.profile Scenario.vm Scenario.mods /\
  snd (Store.scan Scenario.profile_objects Scenario.vm Scenario.mods
         Scenario.heap) =
    Scenario.heap ++
    [ ["open"; "llseek"; "seq_ops.show"; "seq_fops.open"; "seq_fops.llseek"] ].
Proof. repeat split. Qed.
